(** * Foodtruck: the publish-log panel of [foodtruck.js]

    A shallow embedding of [src/foodtruck/assets/js/foodtruck.js]: the
    handlers installed on the publish-log panel [#ft-publog], the handler
    [onPublishEvent] of the server-sent event stream, and the browser's
    event loop that runs them (one handler at a time, timers in the order
    in which they fall due).

    What is kept of the page:
    - the attribute [data-autohide] of [#ft-publog], a string or absent;
    - whether [#ft-publog] is shown, taken as the state its effects queue
      settles in: [fadeIn] settles it in [Visible], [fadeOut] in [Hidden];
      every effect call on the panel is logged with its duration;
    - the children of [#ft-publog-container], in document order;
    - the pending callbacks ([window.setTimeout] and the completion of
      [msgEl.fadeOut]) with the time at which they fall due;
    - the console and the [EventSource].

    jQuery's effects raise no ['hide'] event: the handler bound with
    [publogEl.on('hide', ...)] runs only when such an event is triggered
    on the panel, which nothing in the file does.  It is an event of its
    own here.

    The navigation toggle and the focus handler of the commit dialog
    share no state with the panel and are left out. *)

From Stdlib Require Import List String Arith Bool Lia.
Import ListNotations.

(** ** The page *)

Inductive visibility : Type := Hidden | Visible.

Inductive effect : Type := FadeIn | FadeOut.

(** [window.EventSource] may be missing; a source that exists is connected
    until [source.close()]. *)
Inductive readyState : Type := Unsupported | Connected | Closed.

(** [$('<div>' + e.data + '</div>')]: the markup is opaque, the number
    stands for the identity of the DOM nodes built from it.  The markup
    starts with a [div], so a message element is never an empty set of
    nodes and the container is empty exactly when it holds no message
    element.  A [msgEl] is the whole jQuery set of one message: a payload
    that closes the [div] gives it several nodes, which are appended,
    faded and removed together; how many nodes there are, and what the
    browser makes of the markup, is not kept. *)
Record msgEl : Type := { el_id : nat; el_html : string }.

(** The two closures [onPublishEvent] leaves behind for later, each
    closed over its own [msgEl]. *)
Inductive callback : Type :=
| TimeoutCheck (el : nat)   (* the function given to window.setTimeout *)
| FadeDone (el : nat).      (* removeMsgEl, given to msgEl.fadeOut *)

Record page : Type := {
  now : nat;                          (* milliseconds *)
  autohide : option string;           (* publogEl.attr('data-autohide') *)
  panel : visibility;
  panel_fx : list (effect * nat);     (* effect calls on the panel *)
  children : list msgEl;              (* containerEl.children() *)
  fresh : nat;                        (* identity of the next element *)
  timers : list (nat * callback);     (* due time, callback; by age *)
  console : list string;
  source : readyState
}.

Definition set_now (t : nat) (p : page) : page :=
  {| now := t; autohide := autohide p; panel := panel p;
     panel_fx := panel_fx p; children := children p; fresh := fresh p;
     timers := timers p; console := console p; source := source p |}.

Definition set_autohide (a : option string) (p : page) : page :=
  {| now := now p; autohide := a; panel := panel p;
     panel_fx := panel_fx p; children := children p; fresh := fresh p;
     timers := timers p; console := console p; source := source p |}.

Definition set_children (l : list msgEl) (p : page) : page :=
  {| now := now p; autohide := autohide p; panel := panel p;
     panel_fx := panel_fx p; children := l; fresh := fresh p;
     timers := timers p; console := console p; source := source p |}.

Definition set_fresh (n : nat) (p : page) : page :=
  {| now := now p; autohide := autohide p; panel := panel p;
     panel_fx := panel_fx p; children := children p; fresh := n;
     timers := timers p; console := console p; source := source p |}.

Definition set_timers (ts : list (nat * callback)) (p : page) : page :=
  {| now := now p; autohide := autohide p; panel := panel p;
     panel_fx := panel_fx p; children := children p; fresh := fresh p;
     timers := ts; console := console p; source := source p |}.

Definition set_console (l : list string) (p : page) : page :=
  {| now := now p; autohide := autohide p; panel := panel p;
     panel_fx := panel_fx p; children := children p; fresh := fresh p;
     timers := timers p; console := l; source := source p |}.

Definition set_source (r : readyState) (p : page) : page :=
  {| now := now p; autohide := autohide p; panel := panel p;
     panel_fx := panel_fx p; children := children p; fresh := fresh p;
     timers := timers p; console := console p; source := r |}.

(** ** jQuery and window primitives *)

(** [publogEl.fadeIn(ms)] *)
Definition fadeIn (ms : nat) (p : page) : page :=
  {| now := now p; autohide := autohide p; panel := Visible;
     panel_fx := panel_fx p ++ [(FadeIn, ms)]; children := children p;
     fresh := fresh p; timers := timers p; console := console p;
     source := source p |}.

(** [publogEl.fadeOut(ms)] *)
Definition fadeOut (ms : nat) (p : page) : page :=
  {| now := now p; autohide := autohide p; panel := Hidden;
     panel_fx := panel_fx p ++ [(FadeOut, ms)]; children := children p;
     fresh := fresh p; timers := timers p; console := console p;
     source := source p |}.

(** [publogEl.attr('data-autohide') == v] *)
Definition attr_is (v : string) (a : option string) : bool :=
  match a with
  | Some x => String.eqb x v
  | None => false
  end.

(** A callback to run [ms] milliseconds from now: [window.setTimeout(f, ms)]
    and the completion function of [msgEl.fadeOut(ms, f)]. *)
Definition schedule (ms : nat) (c : callback) (p : page) : page :=
  set_timers (timers p ++ [(now p + ms, c)]) p.

(** [msgEl.remove()] *)
Definition detach (el : nat) (l : list msgEl) : list msgEl :=
  filter (fun c => negb (el_id c =? el)) l.

Definition child_ids (p : page) : list nat := map el_id (children p).

(** ** The handlers of [foodtruck.js] *)

(** [publogEl.mouseenter(function() {...})] *)
Definition onMouseEnter (p : page) : page :=
  set_autohide (Some "false"%string) p.

(** [publogEl.on('hide', function() {...})] *)
Definition onHide (p : page) : page :=
  set_children [] p.

(** [closePublogBtn.on('click', function() {...})] *)
Definition onCloseClick (p : page) : page :=
  fadeOut 200 p.

(** [removeMsgEl], closed over [msgEl] *)
Definition removeMsgEl (el : nat) (p : page) : page :=
  let p1 := set_children (detach el (children p)) p in
  if List.length (children p1) =? 0 then fadeOut 200 p1 else p1.

(** The function given to [window.setTimeout], closed over [msgEl]:
    [msgEl.fadeOut(400, removeMsgEl)] leaves the element where it is and
    has [removeMsgEl] run when the fade ends, 400ms later.  The clock of
    the embedding is exact; on a page the fade ends on the first
    animation tick once the 400ms are over, so what is stated about the
    moment an element is gone is stated as a time that exists, of 400ms
    at least, and what is stated about an element still being there is
    stated for less than 400ms. *)
Definition timeoutCheck (el : nat) (p : page) : page :=
  if attr_is "true" (autohide p) then schedule 400 (FadeDone el) p else p.

(** [$('<div>' + e.data + '</div>')] *)
Definition new_msgEl (data : string) (p : page) : msgEl :=
  {| el_id := fresh p; el_html := ("<div>" ++ data ++ "</div>")%string |}.

(** [onPublishEvent(e)], with [data] for [e.data] *)
Definition onPublishEvent (data : string) (p : page) : page :=
  let msg := new_msgEl data p in
  let p1 := set_fresh (S (fresh p)) p in
  let p2 := schedule 4000 (TimeoutCheck (el_id msg)) p1 in
  let p3 := if List.length (children p2) =? 0
            then fadeIn 200 (set_autohide (Some "true"%string) p2)
            else p2 in
  set_children (children p3 ++ [msg]) p3.

(** [source.onerror] *)
Definition onerror (p : page) : page :=
  set_source Closed
    (set_console (console p ++ ["Error with SSE, closing."%string]) p).

(** ** The event loop *)

Definition run_callback (c : callback) (p : page) : page :=
  match c with
  | TimeoutCheck el => timeoutCheck el p
  | FadeDone el => removeMsgEl el p
  end.

(** The earliest due time among the pending callbacks. *)
Fixpoint earliest (ts : list (nat * callback)) : option nat :=
  match ts with
  | [] => None
  | (d, _) :: r =>
      match earliest r with
      | None => Some d
      | Some e => Some (Nat.min d e)
      end
  end.

(** The oldest callback due at [d], and the others. *)
Fixpoint take_at (d : nat) (ts : list (nat * callback))
  : option (callback * list (nat * callback)) :=
  match ts with
  | [] => None
  | (d', c) :: r =>
      if d' =? d then Some (c, r)
      else match take_at d r with
           | None => None
           | Some (c', r') => Some (c', (d', c) :: r')
           end
  end.

(** The callback to run next when time moves on to [limit]. *)
Definition next_due (limit : nat) (ts : list (nat * callback))
  : option (nat * callback * list (nat * callback)) :=
  match earliest ts with
  | None => None
  | Some d =>
      if d <=? limit
      then match take_at d ts with
           | Some (c, r) => Some (d, c, r)
           | None => None
           end
      else None
  end.

(** The clock reaches the due time and the entry leaves the list (timers
    are one-shot). *)
Definition dequeue (d : nat) (rest : list (nat * callback)) (p : page) : page :=
  set_timers rest (set_now (Nat.max (now p) d) p).

Fixpoint run_due (fuel limit : nat) (p : page) : page :=
  match fuel with
  | 0 => p
  | S fuel' =>
      match next_due limit (timers p) with
      | None => p
      | Some (d, c, rest) =>
          run_due fuel' limit (run_callback c (dequeue d rest p))
      end
  end.

(** A timeout check leaves at most one completion callback behind, a
    completion callback none: this many runs empty the list. *)
Definition weight (c : callback) : nat :=
  match c with
  | TimeoutCheck _ => 2
  | FadeDone _ => 1
  end.

Fixpoint budget (ts : list (nat * callback)) : nat :=
  match ts with
  | [] => 0
  | (_, c) :: r => weight c + budget r
  end.

(** [ms] milliseconds pass with no outside event. *)
Definition elapse (ms : nat) (p : page) : page :=
  let limit := now p + ms in
  set_now limit (run_due (budget (timers p)) limit p).

Inductive event : Type :=
| Message (data : string)   (* 'message' on the EventSource *)
| MouseEnter                (* mouseenter on #ft-publog *)
| CloseClick                (* click on the panel's button *)
| HideEvent                 (* 'hide' triggered on #ft-publog *)
| SourceError               (* 'error' on the EventSource *)
| Elapse (ms : nat).

Definition step (e : event) (p : page) : page :=
  match e with
  | Message data =>
      match source p with
      | Connected => onPublishEvent data p
      | _ => p
      end
  | MouseEnter => onMouseEnter p
  | CloseClick => onCloseClick p
  | HideEvent => onHide p
  | SourceError =>
      match source p with
      | Unsupported => p
      | _ => onerror p
      end
  | Elapse ms => elapse ms p
  end.

Definition run (evs : list event) (p : page) : page :=
  fold_left (fun q e => step e q) evs p.

(** The page once [$(document).ready] has run: the panel hidden and empty,
    the stream open. *)
Definition loaded : page :=
  {| now := 0; autohide := None; panel := Hidden; panel_fx := [];
     children := []; fresh := 0; timers := []; console := [];
     source := Connected |}.

(** [onPublishEvent] called for each payload in turn. *)
Definition publish_all (ds : list string) (p : page) : page :=
  fold_left (fun q d => onPublishEvent d q) ds p.

Definition is_message (e : event) : bool :=
  match e with Message _ => true | _ => false end.

Definition is_hide (e : event) : bool :=
  match e with HideEvent => true | _ => false end.

Definition targets (el : nat) (c : callback) : bool :=
  match c with
  | TimeoutCheck x => x =? el
  | FadeDone x => x =? el
  end.

(** No pending callback is closed over element [el]. *)
Definition no_timer_for (el : nat) (ts : list (nat * callback)) : Prop :=
  forall d c, In (d, c) ts -> targets el c = false.

Definition fade_ins (l : list (effect * nat)) : nat :=
  List.length (filter (fun x => match fst x with FadeIn => true | FadeOut => false end) l).

(** The element a callback is closed over. *)
Definition target (c : callback) : nat :=
  match c with
  | TimeoutCheck x => x
  | FadeDone x => x
  end.

Definition pending_targets (ts : list (nat * callback)) : list nat :=
  map (fun t => target (snd t)) ts.

(** Every element has at most one callback pending, and it is an element
    that was made already. *)
Definition well_timed (p : page) : Prop :=
  NoDup (pending_targets (timers p)) /\
  (forall x, In x (pending_targets (timers p)) -> x < fresh p).

(** Element [el] sits in the container with no callback left that is
    closed over it; elements made later get a larger number. *)
Definition settled (el : nat) (p : page) : Prop :=
  no_timer_for el (timers p) /\ el < fresh p /\ In el (child_ids p).

Definition is_close (e : event) : bool :=
  match e with CloseClick => true | _ => false end.

(** The panel is shown exactly when the container has a child. *)
Definition shown_iff_nonempty (p : page) : Prop :=
  panel p = Visible <-> children p <> [].

(** ** The navigation toggle

    The first handler of [$(document).ready]: a click on [.ft-nav-toggle]
    calls [toggleClass('ft-nav-enabled')] on the elements selected by
    [.ft-nav-container] and then on those selected by [.ft-nav].  An
    element is kept as its list of class names, the document as the list
    of its elements in document order. *)

Record element : Type := { classes : list string }.

(** [$(e).hasClass(c)] *)
Definition hasClass (c : string) (e : element) : bool :=
  existsb (String.eqb c) (classes e).

(** [$(e).addClass(c)]: the name goes last, unless it is there already. *)
Definition addClass (c : string) (e : element) : element :=
  if hasClass c e then e else {| classes := classes e ++ [c] |}.

(** [$(e).removeClass(c)]: every occurrence of the name goes. *)
Definition removeClass (c : string) (e : element) : element :=
  {| classes := filter (fun x => negb (String.eqb c x)) (classes e) |}.

(** [$(e).toggleClass(c)] *)
Definition toggleClass (c : string) (e : element) : element :=
  if hasClass c e then removeClass c e else addClass c e.

(** [$('.' + sel).toggleClass(c)] *)
Definition toggle_selected (sel c : string) (doc : list element)
  : list element :=
  map (fun e => if hasClass sel e then toggleClass c e else e) doc.

(** [$('.ft-nav-toggle').click(function() {...})] *)
Definition onNavToggleClick (doc : list element) : list element :=
  toggle_selected "ft-nav" "ft-nav-enabled"
    (toggle_selected "ft-nav-container" "ft-nav-enabled" doc).

(** What one click does to one element. *)
Definition clicked (e : element) : element :=
  let e1 := if hasClass "ft-nav-container" e
            then toggleClass "ft-nav-enabled" e else e in
  if hasClass "ft-nav" e1 then toggleClass "ft-nav-enabled" e1 else e1.

(** ** Measures and conditions on runs *)

(** The time that passes during the events. *)
Fixpoint duration (evs : list event) : nat :=
  match evs with
  | [] => 0
  | Elapse ms :: r => ms + duration r
  | _ :: r => duration r
  end.

Definition is_fade_done (c : callback) : bool :=
  match c with FadeDone _ => true | TimeoutCheck _ => false end.

(** No pending callback is overdue. *)
Definition on_time (p : page) : Prop :=
  forall d c, In (d, c) (timers p) -> now p <= d.

(** What is left of a message's stay once a callback is due: the fade of
    400ms after the timeout check, nothing after the fade. *)
Definition slack (c : callback) : nat :=
  match c with
  | TimeoutCheck _ => 400
  | FadeDone _ => 0
  end.

(** Every child of the container has a callback pending that has it
    removed by [limit]. *)
Definition dismissal_due (limit : nat) (p : page) : Prop :=
  forall el, In el (child_ids p) ->
    exists d c, In (d, c) (timers p) /\ target c = el /\ d + slack c <= limit.

(** The container is on its way to being emptied by [limit]: nothing is
    overdue, [data-autohide] is ['true'] whenever there is a child, and
    every child has its callback due in time. *)
Definition dismissing (limit : nat) (p : page) : Prop :=
  on_time p /\
  (children p <> [] -> autohide p = Some "true"%string) /\
  dismissal_due limit p.

(** An empty container goes with a hidden panel. *)
Definition hidden_when_empty (p : page) : Prop :=
  children p = [] -> panel p = Hidden.

Definition is_mouseenter (e : event) : bool :=
  match e with MouseEnter => true | _ => false end.

(** Element [el], made at time [t], is in the container and no callback
    closed over it comes due before its 4000ms, or its 4400ms for the end
    of the fade. *)
Definition staying (t el : nat) (p : page) : Prop :=
  In el (child_ids p) /\ el < fresh p /\
  (forall d c, In (d, c) (timers p) -> target c = el ->
               t + 4000 + (400 - slack c) <= d).




(** The pointer has entered the panel, the container is not empty and no
    fade of a message is under way. *)
Definition frozen (p : page) : Prop :=
  autohide p = Some "false"%string /\
  children p <> [] /\
  (forall d c, In (d, c) (timers p) -> is_fade_done c = false).

(** ** Walk-through of a page load *)

Example one_message_lifecycle :
  let p1 := run [Message "A"] loaded in
  let p2 := run [Elapse 4000] p1 in
  let p3 := run [Elapse 399] p2 in
  let p4 := run [Elapse 1] p3 in
  (panel p1, child_ids p1, autohide p1) = (Visible, [0], Some "true"%string) /\
  timers p1 = [(4000, TimeoutCheck 0)] /\
  (child_ids p2, timers p2) = ([0], [(4400, FadeDone 0)]) /\
  (panel p3, child_ids p3) = (Visible, [0]) /\
  (panel p4, child_ids p4, timers p4, now p4) = (Hidden, [], [], 4400) /\
  panel_fx p4 = [(FadeIn, 200); (FadeOut, 200)].
Proof. vm_compute. repeat split. Qed.

(** ** The pending callbacks *)

Section Scheduler.

Implicit Types (ts rest : list (nat * callback)) (d limit : nat) (c : callback).

Lemma earliest_lower ts d :
  earliest ts = Some d -> forall d' c, In (d', c) ts -> d <= d'.
Proof.
  revert d; induction ts as [|[d0 c0] r IH]; intros d E d' c H.
  - destruct H.
  - simpl in E. destruct (earliest r) as [e|] eqn:Er.
    + injection E as <-. destruct H as [H|H].
      * injection H as -> _. apply Nat.le_min_l.
      * specialize (IH e eq_refl d' c H). lia.
    + injection E as <-. destruct H as [H|H].
      * injection H as -> _. apply Nat.le_refl.
      * destruct r; [destruct H|]. simpl in Er. destruct p.
        destruct (earliest r); discriminate.
Qed.

Lemma earliest_member ts d :
  earliest ts = Some d -> exists c, In (d, c) ts.
Proof.
  revert d; induction ts as [|[d0 c0] r IH]; intros d E; [discriminate|].
  simpl in E. destruct (earliest r) as [e|] eqn:Er.
  - injection E as <-. destruct (Nat.min_dec d0 e) as [M|M]; rewrite M.
    + exists c0. now left.
    + destruct (IH e eq_refl) as [c H]. exists c. now right.
  - injection E as <-. exists c0. now left.
Qed.

Lemma earliest_nonempty ts :
  earliest ts = None -> ts = [].
Proof.
  destruct ts as [|[d0 c0] r]; [reflexivity|]. simpl.
  destruct (earliest r); discriminate.
Qed.

Lemma take_at_found ts d c :
  In (d, c) ts -> exists c' r, take_at d ts = Some (c', r).
Proof.
  induction ts as [|[d0 c0] r IH]; intros H; [destruct H|].
  simpl. destruct (d0 =? d) eqn:E; [eauto|].
  destruct H as [H|H].
  - injection H as -> _. rewrite Nat.eqb_refl in E. discriminate.
  - destruct (IH H) as (c' & r' & ->). eauto.
Qed.

Lemma take_at_split ts d c rest :
  take_at d ts = Some (c, rest) ->
  In (d, c) ts /\
  (forall x, In x ts -> x = (d, c) \/ In x rest) /\
  (forall x, In x rest -> In x ts) /\
  budget ts = weight c + budget rest.
Proof.
  revert c rest; induction ts as [|[d0 c0] r IH]; intros c rest H;
    [discriminate|].
  simpl in H. destruct (d0 =? d) eqn:E.
  - apply Nat.eqb_eq in E. subst d0. injection H as <- <-.
    repeat split.
    + now left.
    + intros x [<-|Hx]; auto.
    + intros x Hx. now right.
  - destruct (take_at d r) as [[c' r']|] eqn:T; [|discriminate].
    injection H as <- <-.
    destruct (IH c' r' eq_refl) as (I1 & I2 & I3 & I4).
    repeat split.
    + now right.
    + intros x [<-|Hx]; [right; now left|].
      destruct (I2 x Hx) as [->|Hr]; [now left|right; now right].
    + intros x [<-|Hx]; [now left|right; auto].
    + simpl. rewrite I4. lia.
Qed.

Lemma next_due_some limit ts d c rest :
  next_due limit ts = Some (d, c, rest) ->
  d <= limit /\
  In (d, c) ts /\
  (forall x, In x ts -> x = (d, c) \/ In x rest) /\
  (forall x, In x rest -> In x ts) /\
  budget ts = weight c + budget rest /\
  (forall d' c', In (d', c') ts -> d <= d').
Proof.
  unfold next_due. destruct (earliest ts) as [e|] eqn:E; [|discriminate].
  destruct (e <=? limit) eqn:L; [|discriminate].
  destruct (take_at e ts) as [[c' r']|] eqn:T; [|discriminate].
  intros H. injection H as <- <- <-.
  apply Nat.leb_le in L.
  destruct (take_at_split _ _ _ _ T) as (I1 & I2 & I3 & I4).
  repeat split; auto. apply earliest_lower. exact E.
Qed.

Lemma next_due_none limit ts :
  next_due limit ts = None -> forall d c, In (d, c) ts -> limit < d.
Proof.
  unfold next_due. destruct (earliest ts) as [e|] eqn:E.
  - destruct (e <=? limit) eqn:L.
    + destruct (earliest_member _ _ E) as [c0 H0].
      destruct (take_at_found _ _ _ H0) as (c' & r' & ->). discriminate.
    + intros _ d c H. apply Nat.leb_gt in L.
      pose proof (earliest_lower _ _ E _ _ H). lia.
  - intros _ d c H. apply earliest_nonempty in E. subst ts. destruct H.
Qed.

Lemma budget_app ts rest :
  budget (ts ++ rest) = budget ts + budget rest.
Proof.
  induction ts as [|[d c] r IH]; simpl; [reflexivity|]. rewrite IH. lia.
Qed.

End Scheduler.

(** ** What a callback and a handler leave alone *)

Lemma timeoutCheck_cases el p :
  (attr_is "true" (autohide p) = true /\
   timeoutCheck el p = schedule 400 (FadeDone el) p) \/
  (attr_is "true" (autohide p) = false /\ timeoutCheck el p = p).
Proof.
  unfold timeoutCheck. destruct (attr_is "true" (autohide p)); auto.
Qed.

Lemma removeMsgEl_cases el p :
  (detach el (children p) = [] /\
   removeMsgEl el p = fadeOut 200 (set_children [] p)) \/
  (detach el (children p) <> [] /\
   removeMsgEl el p = set_children (detach el (children p)) p).
Proof.
  unfold removeMsgEl. simpl.
  destruct (detach el (children p)) eqn:E; simpl; [left|right]; auto.
  split; [discriminate|reflexivity].
Qed.

Lemma run_callback_budget c p :
  budget (timers (run_callback c p)) < budget (timers p) + weight c.
Proof.
  destruct c as [el|el]; simpl.
  - destruct (timeoutCheck_cases el p) as [[_ ->]|[_ ->]]; simpl.
    + rewrite budget_app. simpl. lia.
    + lia.
  - destruct (removeMsgEl_cases el p) as [[_ ->]|[_ ->]]; simpl; lia.
Qed.

(** Whatever holds of a page and survives the run of each callback taken
    from the list holds after the due callbacks ran. *)
Lemma run_due_invariant (P : page -> Prop) limit :
  (forall p d c rest,
      next_due limit (timers p) = Some (d, c, rest) ->
      P p -> P (run_callback c (dequeue d rest p))) ->
  forall fuel p, P p -> P (run_due fuel limit p).
Proof.
  intros Hcb. induction fuel as [|fuel IH]; intros p Hp; simpl; [exact Hp|].
  destruct (next_due limit (timers p)) as [[[d c] rest]|] eqn:N; [|exact Hp].
  apply IH. eapply Hcb; eauto.
Qed.

(** The same for what depends neither on the clock nor on the list. *)
Lemma run_due_invariant_simple (P : page -> Prop) limit :
  (forall p d rest, P p -> P (dequeue d rest p)) ->
  (forall c p, P p -> P (run_callback c p)) ->
  forall fuel p, P p -> P (run_due fuel limit p).
Proof.
  intros Hdq Hcb. apply run_due_invariant. intros p d c rest _ Hp.
  apply Hcb, Hdq, Hp.
Qed.

(** The fuel [elapse] gives is enough: nothing due is left behind. *)
Lemma run_due_complete limit :
  forall fuel p,
    budget (timers p) <= fuel ->
    next_due limit (timers (run_due fuel limit p)) = None.
Proof.
  induction fuel as [|fuel IH]; intros p B; simpl.
  - destruct (timers p) as [|[d c] r]; [reflexivity|].
    simpl in B. destruct c; simpl in B; lia.
  - destruct (next_due limit (timers p)) as [[[d c] rest]|] eqn:N; [|exact N].
    apply IH.
    destruct (next_due_some _ _ _ _ _ N) as (_ & _ & _ & _ & W & _).
    pose proof (run_callback_budget c (dequeue d rest p)) as R.
    simpl in R. destruct c; simpl in *; lia.
Qed.

Lemma elapse_complete ms p :
  forall d c, In (d, c) (timers (elapse ms p)) -> now p + ms < d.
Proof.
  unfold elapse. simpl. apply next_due_none.
  apply run_due_complete. apply Nat.le_refl.
Qed.

(** ** Callbacks, field by field *)

Lemma run_callback_autohide c p :
  autohide (run_callback c p) = autohide p.
Proof.
  destruct c as [el|el]; simpl.
  - destruct (timeoutCheck_cases el p) as [[_ ->]|[_ ->]]; reflexivity.
  - destruct (removeMsgEl_cases el p) as [[_ ->]|[_ ->]]; reflexivity.
Qed.

Lemma run_callback_console_source c p :
  console (run_callback c p) = console p /\
  source (run_callback c p) = source p.
Proof.
  destruct c as [el|el]; simpl.
  - destruct (timeoutCheck_cases el p) as [[_ ->]|[_ ->]]; split; reflexivity.
  - destruct (removeMsgEl_cases el p) as [[_ ->]|[_ ->]]; split; reflexivity.
Qed.

Lemma fade_ins_app l l' :
  fade_ins (l ++ l') = fade_ins l + fade_ins l'.
Proof.
  unfold fade_ins. rewrite filter_app, length_app. reflexivity.
Qed.

(** A callback never shows the panel: its only effect on it is a
    fade-out. *)
Lemma run_callback_no_fade_in c p :
  fade_ins (panel_fx (run_callback c p)) = fade_ins (panel_fx p) /\
  (panel p = Hidden -> panel (run_callback c p) = Hidden).
Proof.
  destruct c as [el|el]; simpl.
  - destruct (timeoutCheck_cases el p) as [[_ ->]|[_ ->]]; split; auto.
  - destruct (removeMsgEl_cases el p) as [[_ ->]|[_ ->]]; simpl; split; auto.
    rewrite fade_ins_app. unfold fade_ins at 2. simpl. lia.
Qed.

Lemma detach_subset el l x :
  In x (detach el l) -> In x l.
Proof.
  unfold detach. rewrite filter_In. tauto.
Qed.

Lemma detach_gone el l :
  ~ In el (map el_id (detach el l)).
Proof.
  unfold detach. rewrite in_map_iff. intros (x & <- & H).
  apply filter_In in H. destruct H as [_ H].
  rewrite Nat.eqb_refl in H. discriminate.
Qed.

Lemma detach_other el x l :
  x <> el -> In x (map el_id l) -> In x (map el_id (detach el l)).
Proof.
  unfold detach. rewrite !in_map_iff. intros N (m & <- & H).
  exists m. split; [reflexivity|]. apply filter_In. split; [exact H|].
  apply Bool.negb_true_iff. apply Nat.eqb_neq. exact N.
Qed.

Lemma detach_only el l :
  (forall x, In x (map el_id l) -> x = el) -> detach el l = [].
Proof.
  induction l as [|m r IH]; intros H; [reflexivity|].
  simpl. rewrite (H (el_id m)) by now left.
  rewrite Nat.eqb_refl. simpl. apply IH. intros x Hx. apply H. now right.
Qed.

(** A callback adds no child to the container. *)
Lemma run_callback_children c p x :
  In x (children (run_callback c p)) -> In x (children p).
Proof.
  destruct c as [el|el]; simpl.
  - destruct (timeoutCheck_cases el p) as [[_ ->]|[_ ->]]; auto.
  - destruct (removeMsgEl_cases el p) as [[_ ->]|[_ ->]]; simpl.
    + intros [].
    + apply detach_subset.
Qed.

Lemma run_callback_child_ids c p x :
  In x (child_ids (run_callback c p)) -> In x (child_ids p).
Proof.
  unfold child_ids. rewrite !in_map_iff. intros (m & E & H).
  exists m. split; [exact E|]. eapply run_callback_children; eauto.
Qed.

(** A callback cancels no other callback. *)
Lemma run_callback_timers c p x :
  In x (timers p) -> In x (timers (run_callback c p)).
Proof.
  destruct c as [el|el]; simpl.
  - destruct (timeoutCheck_cases el p) as [[_ ->]|[_ ->]]; simpl; auto.
    intros H. apply in_or_app. now left.
  - destruct (removeMsgEl_cases el p) as [[_ ->]|[_ ->]]; simpl; auto.
Qed.


(** ** Time passing, field by field *)

Lemma run_due_autohide fuel limit p :
  autohide (run_due fuel limit p) = autohide p.
Proof.
  apply (run_due_invariant_simple (fun q => autohide q = autohide p)); auto.
  intros c q H. rewrite run_callback_autohide. exact H.
Qed.

Lemma run_due_console_source fuel limit p :
  console (run_due fuel limit p) = console p /\
  source (run_due fuel limit p) = source p.
Proof.
  apply (run_due_invariant_simple
           (fun q => console q = console p /\ source q = source p)); auto.
  intros c q [H1 H2].
  destruct (run_callback_console_source c q) as [-> ->]. auto.
Qed.

Lemma run_due_no_fade_in fuel limit p :
  fade_ins (panel_fx (run_due fuel limit p)) = fade_ins (panel_fx p) /\
  (panel p = Hidden -> panel (run_due fuel limit p) = Hidden).
Proof.
  apply (run_due_invariant_simple
           (fun q => fade_ins (panel_fx q) = fade_ins (panel_fx p) /\
                     (panel p = Hidden -> panel q = Hidden))); auto.
  intros c q [H1 H2].
  destruct (run_callback_no_fade_in c q) as [E1 E2].
  split; [congruence|auto].
Qed.

Lemma run_due_child_ids fuel limit p x :
  In x (child_ids (run_due fuel limit p)) -> In x (child_ids p).
Proof.
  apply (run_due_invariant_simple
           (fun q => In x (child_ids q) -> In x (child_ids p))); auto.
  intros c q H Hx. apply H. eapply run_callback_child_ids; eauto.
Qed.

(** A callback that is not yet due stays pending. *)
Lemma run_due_keeps_later fuel limit p d c :
  limit < d -> In (d, c) (timers p) ->
  In (d, c) (timers (run_due fuel limit p)).
Proof.
  intros L. revert fuel p.
  apply (run_due_invariant (fun q => In (d, c) (timers q))).
  intros q d0 c0 rest N H.
  destruct (next_due_some _ _ _ _ _ N) as (L0 & _ & S & _).
  apply run_callback_timers. simpl.
  destruct (S _ H) as [E|E]; [|exact E].
  injection E as -> _. lia.
Qed.


Lemma elapse_autohide ms p :
  autohide (elapse ms p) = autohide p.
Proof. unfold elapse. simpl. apply run_due_autohide. Qed.

Lemma elapse_console_source ms p :
  console (elapse ms p) = console p /\ source (elapse ms p) = source p.
Proof. unfold elapse. simpl. apply run_due_console_source. Qed.

Lemma elapse_no_fade_in ms p :
  fade_ins (panel_fx (elapse ms p)) = fade_ins (panel_fx p) /\
  (panel p = Hidden -> panel (elapse ms p) = Hidden).
Proof. unfold elapse. simpl. apply run_due_no_fade_in. Qed.

Lemma elapse_child_ids ms p x :
  In x (child_ids (elapse ms p)) -> In x (child_ids p).
Proof. unfold elapse, child_ids. simpl. apply run_due_child_ids. Qed.

(** ** [onPublishEvent], case by case *)

Lemma onPublishEvent_empty data p :
  children p = [] ->
  onPublishEvent data p =
    set_children [new_msgEl data p]
      (fadeIn 200
         (set_autohide (Some "true"%string)
            (schedule 4000 (TimeoutCheck (fresh p))
               (set_fresh (S (fresh p)) p)))).
Proof.
  intros E. unfold onPublishEvent. simpl. rewrite E. simpl. rewrite E.
  reflexivity.
Qed.

Lemma onPublishEvent_nonempty data p :
  children p <> [] ->
  onPublishEvent data p =
    set_children (children p ++ [new_msgEl data p])
      (schedule 4000 (TimeoutCheck (fresh p)) (set_fresh (S (fresh p)) p)).
Proof.
  intros E. unfold onPublishEvent. simpl.
  destruct (children p) as [|m r] eqn:C; [contradiction|].
  simpl. rewrite C. reflexivity.
Qed.

Lemma onPublishEvent_cases data p :
  (children p = [] /\
   onPublishEvent data p =
     set_children [new_msgEl data p]
       (fadeIn 200
          (set_autohide (Some "true"%string)
             (schedule 4000 (TimeoutCheck (fresh p))
                (set_fresh (S (fresh p)) p))))) \/
  (children p <> [] /\
   onPublishEvent data p =
     set_children (children p ++ [new_msgEl data p])
       (schedule 4000 (TimeoutCheck (fresh p)) (set_fresh (S (fresh p)) p))).
Proof.
  destruct (children p) as [|m r] eqn:E.
  - left. split; [reflexivity|]. apply onPublishEvent_empty. exact E.
  - right. split; [discriminate|]. rewrite <- E.
    apply onPublishEvent_nonempty. rewrite E. discriminate.
Qed.

Lemma onPublishEvent_autohide data p :
  autohide (onPublishEvent data p) =
    match children p with
    | [] => Some "true"%string
    | _ :: _ => autohide p
    end.
Proof.
  destruct (onPublishEvent_cases data p) as [[E ->]|[E ->]]; simpl.
  - rewrite E. reflexivity.
  - destruct (children p); [contradiction|reflexivity].
Qed.

Lemma onPublishEvent_children data p :
  children (onPublishEvent data p) = children p ++ [new_msgEl data p].
Proof.
  destruct (onPublishEvent_cases data p) as [[E ->]|[E ->]]; simpl.
  - rewrite E. reflexivity.
  - reflexivity.
Qed.

(** ** One event, field by field *)

Lemma step_autohide e p :
  autohide (step e p) =
    match e with
    | MouseEnter => Some "false"%string
    | Message _ =>
        match source p, children p with
        | Connected, [] => Some "true"%string
        | _, _ => autohide p
        end
    | _ => autohide p
    end.
Proof.
  destruct e; simpl; try reflexivity.
  - destruct (source p); try reflexivity. apply onPublishEvent_autohide.
  - destruct (source p); reflexivity.
  - apply elapse_autohide.
Qed.

Lemma step_console_source e p :
  match e with
  | SourceError => True
  | _ => console (step e p) = console p /\ source (step e p) = source p
  end.
Proof.
  destruct e; unfold step; auto.
  - destruct (source p) eqn:S; auto.
    destruct (onPublishEvent_cases data p) as [[_ ->]|[_ ->]]; simpl; auto.
  - apply elapse_console_source.
Qed.

Lemma step_stays_closed e p :
  source p = Closed -> source (step e p) = Closed.
Proof.
  intros C. destruct e.
  - simpl. rewrite C. exact C.
  - exact C.
  - exact C.
  - exact C.
  - simpl. rewrite C. reflexivity.
  - destruct (elapse_console_source ms p) as [_ E]. unfold step. congruence.
Qed.

Lemma run_stays_closed evs :
  forall p, source p = Closed -> source (run evs p) = Closed.
Proof.
  induction evs as [|e r IH]; intros p C; simpl; [exact C|].
  apply IH, step_stays_closed, C.
Qed.

(** Without a message, a panel that is hidden stays hidden and no fade-in
    is called. *)
Lemma step_no_fade_in e p :
  is_message e = false ->
  fade_ins (panel_fx (step e p)) = fade_ins (panel_fx p) /\
  (panel p = Hidden -> panel (step e p) = Hidden).
Proof.
  intros M. destruct e; try discriminate; simpl.
  - auto.
  - split; auto. rewrite fade_ins_app. unfold fade_ins at 2. simpl. lia.
  - auto.
  - destruct (source p); auto.
  - apply elapse_no_fade_in.
Qed.

Lemma run_no_fade_in evs :
  forall p,
    forallb (fun e => negb (is_message e)) evs = true ->
    fade_ins (panel_fx (run evs p)) = fade_ins (panel_fx p) /\
    (panel p = Hidden -> panel (run evs p) = Hidden).
Proof.
  induction evs as [|e r IH]; intros p F; simpl; [auto|].
  simpl in F. apply andb_prop in F. destruct F as [Fe Fr].
  apply Bool.negb_true_iff in Fe.
  destruct (step_no_fade_in e p Fe) as [S1 S2].
  destruct (IH (step e p) Fr) as [R1 R2].
  split; [congruence|auto].
Qed.

Lemma run_keeps_false evs :
  forall p,
    forallb (fun e => negb (is_message e)) evs = true ->
    autohide p = Some "false"%string ->
    autohide (run evs p) = Some "false"%string.
Proof.
  induction evs as [|e r IH]; intros p F A; simpl; [exact A|].
  simpl in F. apply andb_prop in F. destruct F as [Fe Fr].
  apply IH; [exact Fr|]. rewrite step_autohide.
  destruct e; try exact A; try reflexivity. discriminate.
Qed.

Lemma publish_all_nonempty ds :
  forall p,
    children p <> [] ->
    panel (publish_all ds p) = panel p /\
    autohide (publish_all ds p) = autohide p /\
    panel_fx (publish_all ds p) = panel_fx p /\
    List.length (children (publish_all ds p)) =
      List.length (children p) + List.length ds.
Proof.
  induction ds as [|d r IH]; intros p N; simpl.
  - repeat split; auto.
  - assert (N' : children (onPublishEvent d p) <> []).
    { rewrite onPublishEvent_children. intros E.
      apply app_eq_nil in E. destruct E as [_ E]. discriminate. }
    destruct (IH _ N') as (I1 & I2 & I3 & I4).
    rewrite I1, I2, I3, I4, onPublishEvent_children, length_app.
    rewrite (onPublishEvent_nonempty d p N). simpl. repeat split; lia.
Qed.

(** ** The autohide marker on arrival of a message *)

(** C1. A call of [onPublishEvent] sets [data-autohide] to ['true'] when
    the container has no child at arrival, and only then: with a child in
    the container the attribute keeps the value it had, so that it is
    still ['false'] when the pointer has just entered the panel. *)
Theorem onPublishEvent_sets_autohide_on_empty_only :
  forall data p,
    autohide (onPublishEvent data p) =
      match children p with
      | [] => Some "true"%string
      | _ :: _ => autohide p
      end /\
    match children p with
    | [] => True
    | _ :: _ =>
        autohide (onPublishEvent data (onMouseEnter p)) = Some "false"%string
    end.
Proof.
  intros data p. split.
  - apply onPublishEvent_autohide.
  - destruct (children p) as [|m r] eqn:E; [exact I|].
    rewrite onPublishEvent_autohide. simpl. rewrite E. reflexivity.
Qed.

(** C2, as stated, fails: after a message "A" and a pointer-enter, the
    message "B" arrives with "A" still in the container and leaves
    [data-autohide] at ['false'].  Hence not every message that follows a
    pointer-enter sets the attribute back to ['true']. *)
Lemma message_after_mouseenter_keeps_false :
  (let p := run [Message "A"; MouseEnter] loaded in
   autohide p = Some "false"%string /\
   child_ids p = [0] /\
   autohide (onPublishEvent "B" p) = Some "false"%string) /\
  ~ (forall data p,
        autohide (onPublishEvent data (onMouseEnter p)) = Some "true"%string).
Proof.
  split.
  - vm_compute. repeat split.
  - intros H. specialize (H "B"%string (run [Message "A"] loaded)).
    vm_compute in H. discriminate H.
Qed.

(** C2, amended. Once [onMouseEnter] has set [data-autohide] to ['false'],
    it is ['false'] until the next message, whatever else happens in
    between; the next call of [onPublishEvent] sets it back to ['true']
    when the container is empty at arrival, and leaves it at ['false']
    when the container has a child. *)
Theorem next_message_resets_autohide_when_empty :
  forall p mid data,
    forallb (fun e => negb (is_message e)) mid = true ->
    let q := run mid (onMouseEnter p) in
    autohide q = Some "false"%string /\
    autohide (onPublishEvent data q) =
      match children q with
      | [] => Some "true"%string
      | _ :: _ => Some "false"%string
      end.
Proof.
  intros p mid data F q.
  assert (A : autohide q = Some "false"%string).
  { apply run_keeps_false; [exact F|reflexivity]. }
  split; [exact A|]. rewrite onPublishEvent_autohide.
  destruct (children q); [reflexivity|exact A].
Qed.

Lemma next_message_resets_autohide_when_empty_witness :
  forallb (fun e => negb (is_message e)) [Elapse 4400; CloseClick; HideEvent]
    = true /\
  autohide
    (onPublishEvent "B"
       (run [Elapse 4400; CloseClick; HideEvent]
          (onMouseEnter (run [Message "A"] loaded))))
    = Some "true"%string.
Proof.
  split; [reflexivity|].
  exact (proj2 (next_message_resets_autohide_when_empty
                  (run [Message "A"] loaded)
                  [Elapse 4400; CloseClick; HideEvent] "B" eq_refl)).
Defined.

(** ** The panel and its container *)

(** C3 fails on the code.  [fadeOut] raises no ['hide'] event, so the
    click on the close button hides the panel and leaves its messages in
    the container: after a message, a pointer-enter and a click the panel
    is hidden with one child.  From then on the container is never found
    empty, the next message is appended without a fade-in, and the panel
    stays hidden with two children, also after the timers have fired. *)
Theorem close_click_leaves_children :
  (let p := run [Message "A"; MouseEnter; CloseClick] loaded in
   panel p = Hidden /\ child_ids p = [0] /\ ~ shown_iff_nonempty p) /\
  (let p := run [Message "A"; MouseEnter; CloseClick; Message "B";
                 Elapse 4400] loaded in
   panel p = Hidden /\ child_ids p = [0; 1] /\ timers p = [] /\
   ~ shown_iff_nonempty p).
Proof.
  split.
  - vm_compute. repeat split. intros [_ H].
    assert (E : Hidden = Visible) by (apply H; discriminate). discriminate E.
  - vm_compute. repeat split. intros [_ H].
    assert (E : Hidden = Visible) by (apply H; discriminate). discriminate E.
Qed.

(** C4. With an empty container, the first call of [onPublishEvent] fades
    the panel in (200ms), whatever its state was and so also when it was
    hidden, and sets [data-autohide] to ['true']; the calls that follow it
    find the container non-empty and change neither, and call no further
    effect on the panel. *)
Theorem first_message_shows_panel :
  forall data rest p,
    children p = [] ->
    let p1 := onPublishEvent data p in
    let pn := publish_all rest p1 in
    panel p1 = Visible /\
    autohide p1 = Some "true"%string /\
    panel_fx p1 = panel_fx p ++ [(FadeIn, 200)] /\
    children p1 = [new_msgEl data p] /\
    panel pn = Visible /\
    autohide pn = Some "true"%string /\
    panel_fx pn = panel_fx p1 /\
    List.length (children pn) = S (List.length rest).
Proof.
  intros data rest p E p1 pn.
  assert (E1 : p1 = set_children [new_msgEl data p]
                      (fadeIn 200
                         (set_autohide (Some "true"%string)
                            (schedule 4000 (TimeoutCheck (fresh p))
                               (set_fresh (S (fresh p)) p)))))
    by (apply onPublishEvent_empty; exact E).
  assert (N : children p1 <> []) by (rewrite E1; discriminate).
  destruct (publish_all_nonempty rest p1 N) as (I1 & I2 & I3 & I4).
  fold pn in I1, I2, I3, I4.
  rewrite I1, I2, I3, I4, E1. simpl. repeat split; reflexivity.
Qed.

Lemma first_message_shows_panel_witness :
  children loaded = [] /\
  panel loaded = Hidden /\
  panel (onPublishEvent "A" loaded) = Visible /\
  autohide (onPublishEvent "A" loaded) = Some "true"%string.
Proof.
  pose proof (first_message_shows_panel "A" ["B"%string] loaded eq_refl) as H.
  split; [reflexivity|]. split; [reflexivity|].
  split; [exact (proj1 H)|exact (proj1 (proj2 H))].
Defined.

(** C7. The click handler of the close button calls [fadeOut(200)] on the
    panel and nothing else: the panel ends hidden whatever the container
    holds, whatever timers are pending and whatever [data-autohide] is,
    and none of the three is touched. *)
Theorem close_click_hides_panel :
  forall p,
    step CloseClick p = onCloseClick p /\
    panel (onCloseClick p) = Hidden /\
    panel_fx (onCloseClick p) = panel_fx p ++ [(FadeOut, 200)] /\
    children (onCloseClick p) = children p /\
    timers (onCloseClick p) = timers p /\
    autohide (onCloseClick p) = autohide p.
Proof.
  intros p. repeat split; reflexivity.
Qed.

(** ** The event stream *)

(** C9. An ['error'] event on the stream runs the handler (there is
    none where [window.EventSource] is missing, and so no stream): the
    handler writes one line to the console and closes the source.  A
    closed source stays closed under every later event and delivers no
    message any more; and no event other than the stream's error writes
    to the console or changes the state of the source. *)
Theorem source_error_closes_for_good :
  forall p,
    match source p with
    | Unsupported => step SourceError p = p
    | _ => step SourceError p = onerror p
    end /\
    console (onerror p) = console p ++ ["Error with SSE, closing."%string] /\
    source (onerror p) = Closed /\
    (forall evs, source (run evs (onerror p)) = Closed) /\
    (forall evs data,
        step (Message data) (run evs (onerror p)) = run evs (onerror p)) /\
    (forall e q,
        match e with
        | SourceError => True
        | _ => console (step e q) = console q /\ source (step e q) = source q
        end).
Proof.
  intros p.
  assert (C : forall evs, source (run evs (onerror p)) = Closed)
    by (intros evs; apply run_stays_closed; reflexivity).
  split.
  { unfold step. destruct (source p); reflexivity. }
  repeat split.
  - exact C.
  - intros evs data. unfold step. rewrite C. reflexivity.
  - intros e q. apply step_console_source.
Qed.

(** ** Who writes the autohide marker *)

(** C10. [data-autohide] is written in two places: the mouseenter handler
    sets it to ['false'], and [onPublishEvent] sets it to ['true'] when
    the container is empty.  The timer callback, [removeMsgEl], the click
    on the close button, the ['hide'] handler and the stream's error
    handler leave it as it is, and so does every event other than those
    two, timers firing while time passes included. *)
Theorem autohide_has_two_writers :
  forall p,
    autohide (onMouseEnter p) = Some "false"%string /\
    (forall data,
        autohide (onPublishEvent data p) =
          match children p with
          | [] => Some "true"%string
          | _ :: _ => autohide p
          end) /\
    (forall el, autohide (timeoutCheck el p) = autohide p) /\
    (forall el, autohide (removeMsgEl el p) = autohide p) /\
    autohide (onCloseClick p) = autohide p /\
    autohide (onHide p) = autohide p /\
    autohide (onerror p) = autohide p /\
    (forall e,
        autohide (step e p) =
          match e with
          | MouseEnter => Some "false"%string
          | Message _ =>
              match source p, children p with
              | Connected, [] => Some "true"%string
              | _, _ => autohide p
              end
          | _ => autohide p
          end).
Proof.
  intros p. repeat split.
  - intros data. apply onPublishEvent_autohide.
  - intros el. exact (run_callback_autohide (TimeoutCheck el) p).
  - intros el. exact (run_callback_autohide (FadeDone el) p).
  - intros e. apply step_autohide.
Qed.

(** ** The timer of a message *)


(** *** One callback per element *)

Lemma take_at_cut ts d c rest :
  take_at d ts = Some (c, rest) ->
  exists l1 l2, ts = l1 ++ (d, c) :: l2 /\ rest = l1 ++ l2.
Proof.
  revert c rest; induction ts as [|[d0 c0] r IH]; intros c rest H;
    [discriminate|].
  simpl in H. destruct (d0 =? d) eqn:E.
  - apply Nat.eqb_eq in E. subst d0. injection H as <- <-.
    exists [], r. split; reflexivity.
  - destruct (take_at d r) as [[c' r']|] eqn:T; [|discriminate].
    injection H as <- <-.
    destruct (IH c' r' eq_refl) as (l1 & l2 & -> & ->).
    exists ((d0, c0) :: l1), l2. split; reflexivity.
Qed.

Lemma next_due_cut limit ts d c rest :
  next_due limit ts = Some (d, c, rest) ->
  exists l1 l2, ts = l1 ++ (d, c) :: l2 /\ rest = l1 ++ l2.
Proof.
  unfold next_due. destruct (earliest ts) as [e|]; [|discriminate].
  destruct (e <=? limit); [|discriminate].
  destruct (take_at e ts) as [[c' r']|] eqn:T; [|discriminate].
  intros H. injection H as <- <- <-. eapply take_at_cut; eauto.
Qed.

Lemma targets_target el c :
  targets el c = (target c =? el).
Proof. destruct c; reflexivity. Qed.

Lemma pending_targets_app ts ts' :
  pending_targets (ts ++ ts') = pending_targets ts ++ pending_targets ts'.
Proof. apply map_app. Qed.

Lemma pending_targets_In d c ts :
  In (d, c) ts -> In (target c) (pending_targets ts).
Proof.
  intros H. unfold pending_targets. apply in_map_iff.
  exists (d, c). split; [reflexivity|exact H].
Qed.

Lemma NoDup_snoc (l : list nat) x :
  NoDup l -> ~ In x l -> NoDup (l ++ [x]).
Proof.
  intros N H. apply NoDup_app; [exact N| |].
  - constructor; [intros []|constructor].
  - intros a Ha [<-|[]]. contradiction.
Qed.

(** The callback the loop takes next leaves none behind that is closed
    over the same element. *)
Lemma well_timed_next limit p d c rest :
  well_timed p ->
  next_due limit (timers p) = Some (d, c, rest) ->
  well_timed (dequeue d rest p) /\
  ~ In (target c) (pending_targets rest) /\
  target c < fresh p.
Proof.
  intros [W1 W2] N.
  destruct (next_due_cut _ _ _ _ _ N) as (l1 & l2 & E & ->).
  rewrite E in W1, W2. rewrite pending_targets_app in W1, W2.
  simpl in W1, W2. apply NoDup_remove in W1. destruct W1 as [W1 W3].
  rewrite <- pending_targets_app in W1, W3.
  repeat split; simpl.
  - exact W1.
  - intros x Hx. apply W2. rewrite pending_targets_app in Hx.
    apply in_app_or in Hx. apply in_or_app. simpl. tauto.
  - exact W3.
  - apply W2. apply in_or_app. right. now left.
Qed.

Lemma well_timed_run_due limit :
  forall fuel p, well_timed p -> well_timed (run_due fuel limit p).
Proof.
  apply (run_due_invariant well_timed). intros p d c rest N W.
  destruct (well_timed_next _ _ _ _ _ W N) as ([W1 W2] & W3 & W4).
  simpl in W1, W2. destruct c as [x|x]; simpl in *.
  - destruct (timeoutCheck_cases x (dequeue d rest p)) as [[_ ->]|[_ ->]];
      [|split; assumption].
    split; simpl; rewrite pending_targets_app; simpl.
    + apply NoDup_snoc; assumption.
    + intros y Hy. apply in_app_or in Hy. destruct Hy as [Hy|[<-|[]]]; auto.
  - destruct (removeMsgEl_cases x (dequeue d rest p)) as [[_ ->]|[_ ->]];
      split; assumption.
Qed.

Lemma well_timed_step e p :
  well_timed p -> well_timed (step e p).
Proof.
  intros W. destruct e; unfold step; try exact W.
  - destruct (source p); try exact W. destruct W as [W1 W2].
    assert (K : well_timed
                  (schedule 4000 (TimeoutCheck (fresh p))
                     (set_fresh (S (fresh p)) p))).
    { split; simpl; rewrite pending_targets_app; simpl.
      - apply NoDup_snoc; [exact W1|]. intros H. apply W2 in H. lia.
      - intros y Hy. apply in_app_or in Hy.
        destruct Hy as [Hy|[<-|[]]]; [apply W2 in Hy|]; lia. }
    destruct (onPublishEvent_cases data p) as [[_ ->]|[_ ->]]; exact K.
  - destruct (source p); exact W.
  - unfold elapse.
    exact (well_timed_run_due (now p + ms) (budget (timers p)) p W).
Qed.

Lemma well_timed_run evs :
  forall p, well_timed p -> well_timed (run evs p).
Proof.
  induction evs as [|e r IH]; intros p W; simpl; [exact W|].
  apply IH, well_timed_step, W.
Qed.

Lemma well_timed_loaded : well_timed loaded.
Proof. split; simpl; [constructor|intros x []]. Qed.

(** In every run from the loaded page, when the loop takes the timeout
    check of an element, no other callback closed over that element is
    pending and the element is older than the next one to be made. *)
Lemma fired_timer_is_alone evs limit d el rest :
  next_due limit (timers (run evs loaded)) = Some (d, TimeoutCheck el, rest) ->
  no_timer_for el (timers (dequeue d rest (run evs loaded))) /\
  el < fresh (dequeue d rest (run evs loaded)).
Proof.
  intros N.
  destruct (well_timed_next _ _ _ _ _
              (well_timed_run evs loaded well_timed_loaded) N)
    as (_ & W3 & W4).
  split; [|exact W4].
  intros d' c' H. simpl in H. rewrite targets_target.
  apply Nat.eqb_neq. intros E. apply W3. simpl. rewrite <- E.
  eapply pending_targets_In; eauto.
Qed.

Lemma attr_is_true a :
  attr_is "true" a = true <-> a = Some "true"%string.
Proof.
  destruct a as [x|]; simpl.
  - rewrite String.eqb_eq. split; [intros ->; reflexivity|].
    intros H. injection H as ->. reflexivity.
  - split; discriminate.
Qed.

Lemma settled_run_callback el c p :
  targets el c = false -> settled el p -> settled el (run_callback c p).
Proof.
  intros T (S1 & S2 & S3). destruct c as [x|x]; simpl in *.
  - destruct (timeoutCheck_cases x p) as [[_ ->]|[_ ->]];
      [|repeat split; assumption].
    repeat split; try assumption.
    intros d c H. simpl in H. apply in_app_or in H. destruct H as [H|[H|[]]].
    + eapply S1; eauto.
    + injection H as _ <-. exact T.
  - apply Nat.eqb_neq in T.
    assert (K : In el (map el_id (detach x (children p))))
      by (apply detach_other; auto).
    destruct (removeMsgEl_cases x p) as [[E ->]|[_ ->]].
    + rewrite E in K. destruct K.
    + repeat split; assumption.
Qed.

Lemma settled_elapse el ms p :
  settled el p -> settled el (elapse ms p).
Proof.
  intros S. unfold elapse.
  assert (R : settled el (run_due (budget (timers p)) (now p + ms) p)).
  { apply (run_due_invariant (settled el)); [|exact S].
    intros q d c rest N (S1 & S2 & S3).
    destruct (next_due_some _ _ _ _ _ N) as (_ & I1 & _ & I3 & _).
    apply settled_run_callback; [eapply S1; eauto|].
    repeat split; try assumption.
    intros d' c' H. simpl in H. eapply S1. apply I3. exact H. }
  exact R.
Qed.

Lemma settled_step el e p :
  is_hide e = false -> settled el p -> settled el (step e p).
Proof.
  intros Hh S. destruct e; try discriminate; unfold step.
  - destruct (source p); try exact S.
    destruct S as (S1 & S2 & S3).
    assert (T : forall d c,
               In (d, c) (timers p ++ [(now p + 4000, TimeoutCheck (fresh p))]) ->
               targets el c = false).
    { intros d c H. apply in_app_or in H. destruct H as [H|[H|[]]].
      - eapply S1; eauto.
      - injection H as _ <-. simpl. apply Nat.eqb_neq. lia. }
    assert (K : In el (map el_id (children p ++ [new_msgEl data p]))).
    { rewrite map_app. apply in_or_app. now left. }
    destruct (onPublishEvent_cases data p) as [[E ->]|[_ ->]].
    + repeat split; simpl; auto.
      unfold child_ids in S3. rewrite E in S3. destruct S3.
    + repeat split; simpl; auto.
  - exact S.
  - exact S.
  - destruct (source p); exact S.
  - apply settled_elapse. exact S.
Qed.

Lemma settled_run el evs :
  forall p,
    forallb (fun e => negb (is_hide e)) evs = true ->
    settled el p -> settled el (run evs p).
Proof.
  induction evs as [|e r IH]; intros p F S; simpl; [exact S|].
  simpl in F. apply andb_prop in F. destruct F as [Fe Fr].
  apply Bool.negb_true_iff in Fe.
  apply IH; [exact Fr|]. apply settled_step; assumption.
Qed.

(** C6. When the timer of a message fires with [data-autohide] not at
    ['true'] (so in particular at ['false']), the callback changes
    nothing and schedules nothing: the timer was one-shot, no callback
    closed over the element is left, and none appears later.  The
    element then stays in the container through every later event
    (messages, pointer-enters, clicks on the close button, stream errors,
    any amount of time passing) other than a ['hide'] event, whose handler
    empties the container. *)
Theorem timer_fired_without_autohide_keeps :
  forall el p later,
    autohide p <> Some "true"%string ->
    no_timer_for el (timers p) ->
    el < fresh p ->
    In el (child_ids p) ->
    forallb (fun e => negb (is_hide e)) later = true ->
    timeoutCheck el p = p /\
    In el (child_ids (run later (timeoutCheck el p))) /\
    no_timer_for el (timers (run later (timeoutCheck el p))).
Proof.
  intros el p later A S1 S2 S3 F.
  assert (E : timeoutCheck el p = p).
  { destruct (timeoutCheck_cases el p) as [[T _]|[_ E]]; [|exact E].
    apply attr_is_true in T. contradiction. }
  rewrite E. split; [reflexivity|].
  destruct (settled_run el later p F) as (R1 & _ & R3).
  - repeat split; assumption.
  - split; assumption.
Qed.

Lemma timer_fired_without_autohide_keeps_witness :
  let p := dequeue 4000 [] (run [Message "A"; MouseEnter] loaded) in
  let later := [Elapse 4400; Message "B"; CloseClick; Elapse 4400;
                SourceError; MouseEnter] in
  autohide p = Some "false"%string /\
  child_ids p = [0] /\
  In 0 (child_ids (run later (timeoutCheck 0 p))).
Proof.
  split; [reflexivity|]. split; [reflexivity|].
  apply (timer_fired_without_autohide_keeps
           0 (dequeue 4000 [] (run [Message "A"; MouseEnter] loaded))
           [Elapse 4400; Message "B"; CloseClick; Elapse 4400;
            SourceError; MouseEnter]).
  - discriminate.
  - intros d c [].
  - simpl. lia.
  - simpl. now left.
  - reflexivity.
Defined.

(** C8. A message arrives with the container empty and shows the panel;
    the close button is clicked before its 4000ms have passed, so its
    timer is still pending when the panel is hidden.  Whatever happens
    afterwards short of a new message (the stale timer firing, its fade
    completing, other timers, pointer-enters, more clicks), the panel
    stays hidden and no fade-in is called.  The callbacks are total
    functions of the page (every jQuery call in them is defined on an
    empty or detached set), and none of them calls a fade-in. *)
Theorem stale_timer_keeps_panel_hidden :
  forall p data n later,
    source p = Connected ->
    children p = [] ->
    n < 4000 ->
    forallb (fun e => negb (is_message e)) later = true ->
    let p1 := run [Message data] p in
    let p2 := run [Elapse n; CloseClick] p1 in
    let p3 := run later p2 in
    panel p1 = Visible /\
    In (now p + 4000, TimeoutCheck (fresh p)) (timers p2) /\
    panel p2 = Hidden /\
    panel p3 = Hidden /\
    fade_ins (panel_fx p3) = fade_ins (panel_fx p2) /\
    (forall c q,
        fade_ins (panel_fx (run_callback c q)) = fade_ins (panel_fx q) /\
        (panel q = Hidden -> panel (run_callback c q) = Hidden)).
Proof.
  intros p data n later C E L F p1 p2 p3.
  assert (E1 : p1 = set_children [new_msgEl data p]
                      (fadeIn 200
                         (set_autohide (Some "true"%string)
                            (schedule 4000 (TimeoutCheck (fresh p))
                               (set_fresh (S (fresh p)) p))))).
  { unfold p1. simpl. rewrite C. apply onPublishEvent_empty. exact E. }
  assert (E2 : p2 = onCloseClick (elapse n p1)) by reflexivity.
  destruct (run_no_fade_in later p2 F) as [R1 R2]. fold p3 in R1, R2.
  split; [rewrite E1; reflexivity|].
  split.
  { rewrite E2. simpl. apply run_due_keeps_later.
    - rewrite E1. simpl. lia.
    - rewrite E1. simpl. apply in_or_app. right. now left. }
  split; [rewrite E2; reflexivity|].
  split; [apply R2; rewrite E2; reflexivity|].
  split; [exact R1|].
  intros c q. apply run_callback_no_fade_in.
Qed.

Lemma stale_timer_keeps_panel_hidden_witness :
  let later := [Elapse 3900; Elapse 400; MouseEnter; Elapse 1000] in
  source loaded = Connected /\
  children loaded = [] /\
  100 < 4000 /\
  panel (run later (run [Elapse 100; CloseClick] (run [Message "X"] loaded)))
    = Hidden.
Proof.
  assert (L : 100 < 4000) by lia.
  pose proof (stale_timer_keeps_panel_hidden loaded "X" 100
                [Elapse 3900; Elapse 400; MouseEnter; Elapse 1000]
                eq_refl eq_refl L eq_refl) as H.
  split; [reflexivity|]. split; [reflexivity|]. split; [exact L|].
  exact (proj1 (proj2 (proj2 (proj2 H)))).
Defined.

(** ** When the panel and its container agree *)

Lemma shown_iff_nonempty_run_callback c p :
  shown_iff_nonempty p -> shown_iff_nonempty (run_callback c p).
Proof.
  unfold shown_iff_nonempty. intros H. destruct c as [el|el]; simpl.
  - destruct (timeoutCheck_cases el p) as [[_ ->]|[_ ->]]; exact H.
  - destruct (removeMsgEl_cases el p) as [[_ ->]|[N ->]]; simpl.
    + split; [discriminate|]. intros K. contradiction.
    + split; [intros _; exact N|]. intros _. apply H. intros K.
      rewrite K in N. apply N. reflexivity.
Qed.

Lemma shown_iff_nonempty_step e p :
  is_close e = false -> is_hide e = false ->
  shown_iff_nonempty p -> shown_iff_nonempty (step e p).
Proof.
  intros Hc Hh H. destruct e; try discriminate; unfold step.
  - destruct (source p); try exact H.
    unfold shown_iff_nonempty in *.
    destruct (onPublishEvent_cases data p) as [[_ ->]|[N ->]]; simpl.
    + split; [discriminate|reflexivity].
    + split.
      * intros _ K. apply app_eq_nil in K. destruct K as [_ K]. discriminate.
      * intros _. apply H. exact N.
  - exact H.
  - destruct (source p); exact H.
  - unfold elapse.
    apply (run_due_invariant_simple shown_iff_nonempty (now p + ms)
             (fun q d rest K => K) shown_iff_nonempty_run_callback
             (budget (timers p)) p H).
Qed.

(** X8. Messages, pointer-enters, stream errors and timers keep the panel
    shown exactly when the container has a child: only the click on the
    close button and a ['hide'] event break it. *)
Lemma shown_iff_nonempty_without_close evs :
  forall p,
    forallb (fun e => negb (is_close e || is_hide e)) evs = true ->
    shown_iff_nonempty p -> shown_iff_nonempty (run evs p).
Proof.
  induction evs as [|e r IH]; intros p F H; simpl; [exact H|].
  simpl in F. apply andb_prop in F. destruct F as [Fe Fr].
  apply Bool.negb_true_iff, Bool.orb_false_iff in Fe. destruct Fe as [Fc Fh].
  apply IH; [exact Fr|]. apply shown_iff_nonempty_step; assumption.
Qed.

(** ** The navigation toggle *)

Lemma hasClass_removeClass c c' e :
  hasClass c (removeClass c' e) =
    if String.eqb c c' then false else hasClass c e.
Proof.
  unfold hasClass, removeClass. simpl.
  induction (classes e) as [|x l IH]; simpl.
  - destruct (String.eqb c c'); reflexivity.
  - destruct (String.eqb c' x) eqn:E'; simpl.
    + rewrite IH. apply String.eqb_eq in E'. subst x.
      destruct (String.eqb c c'); reflexivity.
    + rewrite IH. destruct (String.eqb c c') eqn:E; [|reflexivity].
      apply String.eqb_eq in E. subst c'. rewrite E'. reflexivity.
Qed.

Lemma hasClass_append c c' l :
  existsb (String.eqb c) (l ++ [c']) =
    existsb (String.eqb c) l || String.eqb c c'.
Proof.
  rewrite existsb_app. simpl. rewrite Bool.orb_false_r. reflexivity.
Qed.

Lemma hasClass_toggleClass c c' e :
  hasClass c (toggleClass c' e) =
    if String.eqb c c' then negb (hasClass c e) else hasClass c e.
Proof.
  unfold toggleClass. destruct (hasClass c' e) eqn:H.
  - rewrite hasClass_removeClass. destruct (String.eqb c c') eqn:E; auto.
    apply String.eqb_eq in E. subst c'. rewrite H. reflexivity.
  - unfold addClass. rewrite H. unfold hasClass at 1. simpl.
    rewrite hasClass_append. fold (hasClass c e).
    destruct (String.eqb c c') eqn:E.
    + apply String.eqb_eq in E. subst c'. rewrite H. reflexivity.
    + apply Bool.orb_false_r.
Qed.

Lemma onNavToggleClick_map doc :
  onNavToggleClick doc = map clicked doc.
Proof.
  unfold onNavToggleClick, toggle_selected. rewrite map_map. reflexivity.
Qed.

Lemma hasClass_clicked c e :
  hasClass c (clicked e) =
    if String.eqb c "ft-nav-enabled"
    then xorb (hasClass c e)
              (xorb (hasClass "ft-nav-container" e) (hasClass "ft-nav" e))
    else hasClass c e.
Proof.
  unfold clicked.
  destruct (hasClass "ft-nav-container" e) eqn:A;
    repeat rewrite hasClass_toggleClass; simpl;
    destruct (hasClass "ft-nav" e) eqn:B;
    repeat rewrite hasClass_toggleClass;
    destruct (String.eqb c "ft-nav-enabled");
    destruct (hasClass c e); reflexivity.
Qed.

(** X1. One click flips [ft-nav-enabled] on the elements that carry exactly
    one of the classes [ft-nav-container] and [ft-nav]; an element that
    carries both is toggled twice and ends as it began, like an element
    that carries neither; and no other class name is touched. *)
Theorem nav_click_flips_enabled :
  forall doc c,
    map (hasClass c) (onNavToggleClick doc) =
      map (fun e =>
             if String.eqb c "ft-nav-enabled"
             then xorb (hasClass c e)
                       (xorb (hasClass "ft-nav-container" e)
                             (hasClass "ft-nav" e))
             else hasClass c e) doc.
Proof.
  intros doc c. rewrite onNavToggleClick_map, map_map.
  apply map_ext. intros e. apply hasClass_clicked.
Qed.

(** X2. Two clicks give every element back the classes it had, and the
    document its length; the class attribute itself may come back in
    another order, the toggled name being added last. *)
Theorem nav_click_twice_restores_classes :
  (forall doc c,
      map (hasClass c) (onNavToggleClick (onNavToggleClick doc)) =
        map (hasClass c) doc) /\
  (forall doc,
      List.length (onNavToggleClick (onNavToggleClick doc)) =
        List.length doc) /\
  (let doc := [{| classes := ["ft-nav-enabled"; "ft-nav"]%string |}] in
   onNavToggleClick (onNavToggleClick doc) =
     [{| classes := ["ft-nav"; "ft-nav-enabled"]%string |}]).
Proof.
  split; [|split].
  - intros doc c. rewrite !onNavToggleClick_map, !map_map.
    apply map_ext. intros e. rewrite !hasClass_clicked.
    destruct (String.eqb c "ft-nav-enabled") eqn:E; [|reflexivity].
    simpl.
    destruct (hasClass c e), (hasClass "ft-nav-container" e),
      (hasClass "ft-nav" e); reflexivity.
  - intros doc. rewrite !onNavToggleClick_map, !length_map. reflexivity.
  - reflexivity.
Qed.

(** ** A browser without [EventSource] *)

Lemma unsupported_step e p :
  source p = Unsupported ->
  source (step e p) = Unsupported /\
  console (step e p) = console p /\
  fade_ins (panel_fx (step e p)) = fade_ins (panel_fx p) /\
  (forall x, In x (child_ids (step e p)) -> In x (child_ids p)).
Proof.
  intros U. destruct e.
  - simpl. rewrite U. auto.
  - simpl. auto.
  - simpl. repeat split; auto.
    rewrite fade_ins_app. unfold fade_ins at 2. simpl. lia.
  - simpl. repeat split; auto. intros x [].
  - simpl. rewrite U. auto.
  - unfold step.
    destruct (elapse_console_source ms p) as [E1 E2].
    destruct (elapse_no_fade_in ms p) as [E3 _].
    repeat split; try congruence. apply elapse_child_ids.
Qed.

(** X11. Where [window.EventSource] is missing no stream is opened: whatever
    events follow, no message element is added to the container, the
    panel is never faded in and nothing is written to the console. *)
Theorem no_event_source_no_messages :
  forall evs p,
    source p = Unsupported ->
    source (run evs p) = Unsupported /\
    console (run evs p) = console p /\
    fade_ins (panel_fx (run evs p)) = fade_ins (panel_fx p) /\
    (forall x, In x (child_ids (run evs p)) -> In x (child_ids p)).
Proof.
  induction evs as [|e r IH]; intros p U; simpl; [auto|].
  destruct (unsupported_step e p U) as (S1 & S2 & S3 & S4).
  destruct (IH (step e p) S1) as (R1 & R2 & R3 & R4).
  repeat split; try congruence. auto.
Qed.

Lemma no_event_source_no_messages_witness :
  let p := set_source Unsupported loaded in
  let evs := [Message "A"; SourceError; Elapse 4400; MouseEnter] in
  source p = Unsupported /\
  console (run evs p) = [] /\
  fade_ins (panel_fx (run evs p)) = 0.
Proof.
  pose proof (no_event_source_no_messages
                [Message "A"; SourceError; Elapse 4400; MouseEnter]
                (set_source Unsupported loaded) eq_refl) as H.
  split; [reflexivity|].
  split; [exact (proj1 (proj2 H))|exact (proj1 (proj2 (proj2 H)))].
Defined.

(** ** The panel after a pointer-enter *)

Lemma attr_is_true_false :
  attr_is "true" (Some "false"%string) = false.
Proof. reflexivity. Qed.

Lemma frozen_run_due limit p :
  frozen p ->
  forall fuel,
    frozen (run_due fuel limit p) /\
    children (run_due fuel limit p) = children p /\
    panel (run_due fuel limit p) = panel p /\
    panel_fx (run_due fuel limit p) = panel_fx p.
Proof.
  intros F fuel.
  apply (run_due_invariant
           (fun q => frozen q /\ children q = children p /\
                     panel q = panel p /\ panel_fx q = panel_fx p) limit);
    [|auto].
  intros q d c rest N ((A & C & T) & E1 & E2 & E3).
  destruct (next_due_some _ _ _ _ _ N) as (_ & I1 & _ & I3 & _).
  pose proof (T _ _ I1) as Tc. destruct c as [x|x]; [|discriminate].
  simpl. unfold timeoutCheck. simpl. rewrite A, attr_is_true_false.
  repeat split; auto.
  intros d' c' H. simpl in H. eapply T. apply I3. exact H.
Qed.

Lemma frozen_step e p :
  frozen p -> is_hide e = false ->
  frozen (step e p) /\
  (exists more, children (step e p) = children p ++ more) /\
  fade_ins (panel_fx (step e p)) = fade_ins (panel_fx p) /\
  (panel p = Hidden -> panel (step e p) = Hidden).
Proof.
  intros F Hh. pose proof F as (A & C & T).
  assert (Same : exists more : list msgEl, children p = children p ++ more)
    by (exists []; rewrite app_nil_r; reflexivity).
  destruct e; try discriminate; unfold step.
  - destruct (source p); try (repeat split; auto; fail).
    rewrite (onPublishEvent_nonempty data p C). simpl.
    split; [|split; [eexists; reflexivity|auto]].
    repeat split; simpl; auto.
    + intros K. apply app_eq_nil in K. destruct K as [_ K]. discriminate.
    + intros d c H. apply in_app_or in H. destruct H as [H|[H|[]]].
      * eapply T; eauto.
      * injection H as _ <-. reflexivity.
  - repeat split; auto.
  - repeat split; auto. simpl.
    rewrite fade_ins_app. unfold fade_ins at 2. simpl. lia.
  - destruct (source p); repeat split; auto.
  - destruct (frozen_run_due (now p + ms) p F (budget (timers p)))
      as ((A' & C' & T') & E1 & E2 & E3).
    unfold elapse. simpl. rewrite E1, E2, E3.
    repeat split; auto.
Qed.

(** X7. Once the pointer has entered the panel while it holds a message and
    no fade is under way, the panel is stuck for good: through every
    later sequence of messages, pointer-enters, clicks on the close
    button, stream errors and time passing (everything but a ['hide']
    event), [data-autohide] stays ['false'], no message ever leaves the
    container, new ones are only appended, and the panel is never faded
    in again; so once it is hidden it stays hidden, whatever arrives. *)
Theorem hover_freezes_panel :
  forall evs p,
    frozen p ->
    forallb (fun e => negb (is_hide e)) evs = true ->
    frozen (run evs p) /\
    (exists more, children (run evs p) = children p ++ more) /\
    fade_ins (panel_fx (run evs p)) = fade_ins (panel_fx p) /\
    (panel p = Hidden -> panel (run evs p) = Hidden).
Proof.
  induction evs as [|e r IH]; intros p F N; simpl.
  - repeat split; try apply F; auto. exists []. rewrite app_nil_r. reflexivity.
  - simpl in N. apply andb_prop in N. destruct N as [Ne Nr].
    apply Bool.negb_true_iff in Ne.
    destruct (frozen_step e p F Ne) as (S1 & [m1 S2] & S3 & S4).
    destruct (IH (step e p) S1 Nr) as (R1 & [m2 R2] & R3 & R4).
    repeat split; try apply R1; try congruence; auto.
    exists (m1 ++ m2). rewrite R2, S2, app_assoc. reflexivity.
Qed.

Lemma hover_freezes_panel_witness :
  let p := run [Message "A"; MouseEnter; CloseClick] loaded in
  let evs := [Elapse 4400; Message "B"; Elapse 4400; SourceError;
              MouseEnter; Message "C"] in
  frozen p /\
  panel p = Hidden /\
  panel (run evs p) = Hidden /\
  autohide (run evs p) = Some "false"%string.
Proof.
  assert (F : frozen (run [Message "A"; MouseEnter; CloseClick] loaded)).
  { split; [reflexivity|]. split; [discriminate|].
    intros d c [H|[]]. injection H as _ <-. reflexivity. }
  pose proof (hover_freezes_panel
                [Elapse 4400; Message "B"; Elapse 4400; SourceError;
                 MouseEnter; Message "C"]
                (run [Message "A"; MouseEnter; CloseClick] loaded)
                F eq_refl) as H.
  split; [exact F|]. split; [reflexivity|].
  split; [exact (proj2 (proj2 (proj2 H)) eq_refl)|].
  exact (proj1 (proj1 H)).
Defined.

(** ** How long a message stays *)

Lemma step_now e p :
  now (step e p) = now p + match e with Elapse ms => ms | _ => 0 end.
Proof.
  destruct e; unfold step; simpl; try lia.
  - destruct (source p); try (simpl; lia).
    destruct (onPublishEvent_cases data p) as [[_ ->]|[_ ->]]; simpl; lia.
  - destruct (source p); simpl; lia.
Qed.

Lemma staying_run_callback t el limit q d c rest :
  next_due limit (timers q) = Some (d, c, rest) ->
  limit < t + 4400 ->
  staying t el q ->
  staying t el (run_callback c (dequeue d rest q)).
Proof.
  intros N L (S1 & S2 & S3).
  destruct (next_due_some _ _ _ _ _ N) as (Ld & I1 & _ & I3 & _).
  assert (R : forall d' c', In (d', c') rest -> target c' = el ->
                            t + 4000 + (400 - slack c') <= d')
    by (intros d' c' H; apply S3, I3, H).
  destruct c as [x|x]; simpl.
  - destruct (timeoutCheck_cases x (dequeue d rest q)) as [[_ ->]|[_ ->]];
      [|repeat split; assumption].
    repeat split; try assumption.
    intros d' c' H E. simpl in H. apply in_app_or in H.
    destruct H as [H|[H|[]]]; [apply R; assumption|].
    injection H as <- <-. simpl in E. subst x.
    pose proof (S3 _ _ I1 eq_refl) as B. simpl in *. lia.
  - assert (X : x <> el).
    { intros ->. pose proof (S3 _ _ I1 eq_refl) as B. simpl in B. lia. }
    assert (K : In el (map el_id (detach x (children q))))
      by (apply detach_other; auto).
    destruct (removeMsgEl_cases x (dequeue d rest q)) as [[E ->]|[_ ->]].
    + simpl in E. rewrite E in K. destruct K.
    + repeat split; assumption.
Qed.

Lemma staying_step t el e p :
  staying t el p ->
  is_hide e = false ->
  now (step e p) < t + 4400 ->
  staying t el (step e p).
Proof.
  intros S Hh L. destruct e; try discriminate; unfold step.
  - destruct (source p); try exact S.
    destruct S as (S1 & S2 & S3).
    assert (K : In el (map el_id (children p ++ [new_msgEl data p]))).
    { rewrite map_app. apply in_or_app. now left. }
    assert (T : forall d c,
               In (d, c) (timers p ++ [(now p + 4000, TimeoutCheck (fresh p))]) ->
               target c = el -> t + 4000 + (400 - slack c) <= d).
    { intros d c H E. apply in_app_or in H. destruct H as [H|[H|[]]].
      - apply S3; assumption.
      - injection H as _ <-. simpl in E. lia. }
    destruct (onPublishEvent_cases data p) as [[E ->]|[_ ->]].
    + unfold child_ids in S1. rewrite E in S1. destruct S1.
    + repeat split; simpl; auto.
  - exact S.
  - exact S.
  - destruct (source p); exact S.
  - rewrite step_now in L. unfold elapse.
    assert (R : staying t el (run_due (budget (timers p)) (now p + ms) p)).
    { apply (run_due_invariant (staying t el)); [|exact S].
      intros q d c rest N Sq. eapply staying_run_callback; eauto. }
    exact R.
Qed.

Lemma staying_run t el evs :
  forall p,
    staying t el p ->
    forallb (fun e => negb (is_hide e)) evs = true ->
    now p + duration evs < t + 4400 ->
    staying t el (run evs p).
Proof.
  induction evs as [|e r IH]; intros p S F L; simpl; [exact S|].
  simpl in F. apply andb_prop in F. destruct F as [Fe Fr].
  apply Bool.negb_true_iff in Fe.
  assert (D : now (step e p) + duration r = now p + duration (e :: r)).
  { rewrite step_now. destruct e; simpl; lia. }
  apply IH; [|exact Fr|lia].
  apply staying_step; [exact S|exact Fe|lia].
Qed.

(** X4. A message that has arrived is in the container for the next 4400ms
    at least (its 4000ms and the 400ms of the fade), whatever happens in
    that time short of a ['hide'] event: other messages, other timers,
    pointer-enters, clicks on the close button, stream errors.  The page
    it arrives on only has callbacks for elements made earlier. *)
Theorem message_stays_4400ms :
  forall data evs p,
    (forall x, In x (pending_targets (timers p)) -> x < fresh p) ->
    forallb (fun e => negb (is_hide e)) evs = true ->
    duration evs < 4400 ->
    In (fresh p) (child_ids (run evs (onPublishEvent data p))).
Proof.
  intros data evs p W F D.
  assert (S : staying (now p) (fresh p) (onPublishEvent data p)).
  { assert (T : forall d c,
                 In (d, c) (timers p ++ [(now p + 4000, TimeoutCheck (fresh p))]) ->
                 target c = fresh p -> now p + 4000 + (400 - slack c) <= d).
    { intros d c H E. apply in_app_or in H. destruct H as [H|[H|[]]].
      - apply pending_targets_In in H. apply W in H. lia.
      - injection H as <- <-. simpl. lia. }
    assert (K : In (fresh p) (map el_id (children p ++ [new_msgEl data p]))).
    { rewrite map_app. apply in_or_app. right. now left. }
    destruct (onPublishEvent_cases data p) as [[E ->]|[_ ->]].
    - repeat split; simpl; auto.
    - repeat split; simpl; auto. }
  apply (staying_run (now p) (fresh p) evs _ S F).
  destruct (onPublishEvent_cases data p) as [[_ ->]|[_ ->]]; simpl; lia.
Qed.

Lemma message_stays_4400ms_witness :
  let p := run [Message "A"; Elapse 100] loaded in
  let evs := [Elapse 4000; Message "C"; CloseClick; Elapse 399] in
  (forall x, In x (pending_targets (timers p)) -> x < fresh p) /\
  duration evs < 4400 /\
  In 1 (child_ids (run evs (onPublishEvent "B" p))).
Proof.
  assert (W : forall x,
             In x (pending_targets
                     (timers (run [Message "A"; Elapse 100] loaded))) ->
             x < fresh (run [Message "A"; Elapse 100] loaded)).
  { intros x [<-|[]]. simpl. lia. }
  assert (D : duration [Elapse 4000; Message "C"; CloseClick; Elapse 399]
              < 4400) by (simpl; lia).
  split; [exact W|]. split; [exact D|].
  exact (message_stays_4400ms "B"
           [Elapse 4000; Message "C"; CloseClick; Elapse 399]
           (run [Message "A"; Elapse 100] loaded) W eq_refl D).
Defined.

(** ** Messages nobody hovers over go away *)

Lemma detach_ids el x l :
  In x (map el_id (detach el l)) -> In x (map el_id l) /\ x <> el.
Proof.
  intros H. split.
  - apply in_map_iff in H. destruct H as (m & E & H).
    apply in_map_iff. exists m. split; [exact E|]. eapply detach_subset; eauto.
  - intros ->. exact (detach_gone el l H).
Qed.

Lemma dismissing_run_callback L limit q d c rest :
  next_due limit (timers q) = Some (d, c, rest) ->
  dismissing L q ->
  dismissing L (run_callback c (dequeue d rest q)).
Proof.
  intros N (O & A & D).
  destruct (next_due_some _ _ _ _ _ N) as (_ & I1 & S & I3 & _ & Min).
  pose proof (O _ _ I1) as Od.
  assert (O' : on_time (dequeue d rest q)).
  { intros d' c' H. simpl in *. apply I3 in H.
    apply Nat.max_lub; [eapply O|eapply Min]; eauto. }
  destruct c as [x|x]; simpl.
  - destruct (timeoutCheck_cases x (dequeue d rest q)) as [[_ ->]|[F ->]].
    + split; [|split].
      * intros d' c' H. simpl in H. apply in_app_or in H.
        destruct H as [H|[H|[]]]; [exact (O' d' c' H)|].
        injection H as <- _. simpl. lia.
      * exact A.
      * intros el Hel. destruct (D el Hel) as (d' & c' & H & T & B).
        destruct (S _ H) as [E|E].
        -- injection E as -> ->. simpl in T, B. subst x.
           exists (Nat.max (now q) d + 400), (FadeDone el).
           split; [simpl; apply in_or_app; right; now left|].
           split; [reflexivity|]. simpl. lia.
        -- exists d', c'. split; [simpl; apply in_or_app; now left|auto].
    + split; [exact O'|]. split; [exact A|].
      intros el Hel. exfalso. simpl in F.
      assert (C : children q <> []).
      { intros E. unfold child_ids in Hel. simpl in Hel.
        rewrite E in Hel. destruct Hel. }
      apply A in C. rewrite C in F. discriminate.
  - destruct (removeMsgEl_cases x (dequeue d rest q)) as [[_ ->]|[Ne ->]].
    + split; [exact O'|]. split; [intros C; contradiction|].
      intros el [].
    + split; [exact O'|]. split.
      * intros _. apply A. intros E. simpl in Ne. rewrite E in Ne.
        apply Ne. reflexivity.
      * intros el Hel. unfold child_ids in Hel. simpl in Hel.
        apply detach_ids in Hel. destruct Hel as [Hel X].
        destruct (D el Hel) as (d' & c' & H & T & B).
        destruct (S _ H) as [E|E].
        -- injection E as -> ->. simpl in T. congruence.
        -- exists d', c'. auto.
Qed.

Lemma hidden_when_empty_run_callback c p :
  hidden_when_empty p -> hidden_when_empty (run_callback c p).
Proof.
  unfold hidden_when_empty. intros H. destruct c as [x|x]; simpl.
  - destruct (timeoutCheck_cases x p) as [[_ ->]|[_ ->]]; exact H.
  - destruct (removeMsgEl_cases x p) as [[_ ->]|[Ne ->]]; simpl.
    + reflexivity.
    + intros E. contradiction.
Qed.

Lemma dismissing_run_due L limit :
  forall fuel p, dismissing L p -> dismissing L (run_due fuel limit p).
Proof.
  apply (run_due_invariant (dismissing L)).
  intros p d c rest N H. eapply dismissing_run_callback; eauto.
Qed.

Lemma hidden_when_empty_elapse ms p :
  hidden_when_empty p -> hidden_when_empty (elapse ms p).
Proof.
  intros H. unfold elapse.
  exact (run_due_invariant_simple hidden_when_empty (now p + ms)
           (fun q d rest K => K) hidden_when_empty_run_callback
           (budget (timers p)) p H).
Qed.

(** Time passing keeps the container on its way, and the more time has
    passed the later the limit may be. *)
Lemma dismissing_elapse L ms p :
  dismissing L p -> dismissing (L + ms) (elapse ms p).
Proof.
  intros H.
  destruct (dismissing_run_due L (now p + ms) (budget (timers p)) p H)
    as (O & A & D).
  split; [|split].
  - intros d c K. pose proof (elapse_complete ms p d c K). simpl. lia.
  - exact A.
  - intros el Hel. destruct (D el Hel) as (d & c & K & T & B).
    exists d, c. repeat split; auto. lia.
Qed.

Lemma dismissing_elapse_empty ms p :
  dismissing (now p + ms) p -> children (elapse ms p) = [].
Proof.
  intros H.
  destruct (dismissing_run_due (now p + ms) (now p + ms)
              (budget (timers p)) p H) as (_ & _ & D).
  destruct (children (elapse ms p)) as [|m r] eqn:E; [reflexivity|].
  exfalso. unfold elapse in E. simpl in E.
  destruct (D (el_id m)) as (d & c & K & _ & B).
  - unfold child_ids. rewrite E. now left.
  - pose proof (elapse_complete ms p d c K). lia.
Qed.

Lemma dismissing_step e p :
  is_mouseenter e = false ->
  dismissing (now p + 4400) p ->
  dismissing (now (step e p) + 4400) (step e p).
Proof.
  intros M H. pose proof H as (O & A & D).
  destruct e; try discriminate; unfold step.
  - destruct (source p); try exact H.
    assert (O' : forall d c,
               In (d, c) (timers p ++ [(now p + 4000, TimeoutCheck (fresh p))]) ->
               now p <= d).
    { intros d c K. apply in_app_or in K. destruct K as [K|[K|[]]].
      - eapply O; eauto.
      - injection K as <- _. lia. }
    assert (New : exists d c,
               In (d, c) (timers p ++ [(now p + 4000, TimeoutCheck (fresh p))]) /\
               target c = fresh p /\ d + slack c <= now p + 4400).
    { exists (now p + 4000), (TimeoutCheck (fresh p)).
      split; [apply in_or_app; right; now left|]. split; [reflexivity|].
      simpl. lia. }
    destruct (onPublishEvent_cases data p) as [[E ->]|[Ne ->]].
    + split; [exact O'|]. split; [reflexivity|].
      intros el [<-|[]]. exact New.
    + split; [exact O'|]. split; [intros _; exact (A Ne)|].
      intros el Hel. unfold child_ids in Hel. simpl in Hel.
      rewrite map_app in Hel. apply in_app_or in Hel.
      destruct Hel as [Hel|[<-|[]]]; [|exact New].
      destruct (D el Hel) as (d & c & K & T & B).
      exists d, c. split; [simpl; apply in_or_app; now left|auto].
  - exact H.
  - split; [exact O|]. split; [intros C; contradiction|]. intros el [].
  - destruct (source p); exact H.
  - replace (now (elapse ms p) + 4400) with (now p + 4400 + ms)
      by (unfold elapse; simpl; lia).
    apply dismissing_elapse. exact H.
Qed.

Lemma hidden_when_empty_step e p :
  is_hide e = false ->
  hidden_when_empty p -> hidden_when_empty (step e p).
Proof.
  intros Hh H. destruct e; try discriminate; unfold step.
  - destruct (source p); try exact H.
    intros E. rewrite onPublishEvent_children in E.
    apply app_eq_nil in E. destruct E as [_ E]. discriminate.
  - exact H.
  - intros _. reflexivity.
  - destruct (source p); exact H.
  - apply hidden_when_empty_elapse. exact H.
Qed.

Lemma dismissing_run evs :
  forall p,
    forallb (fun e => negb (is_mouseenter e || is_hide e)) evs = true ->
    dismissing (now p + 4400) p -> hidden_when_empty p ->
    dismissing (now (run evs p) + 4400) (run evs p) /\
    hidden_when_empty (run evs p).
Proof.
  induction evs as [|e r IH]; intros p F D H; simpl; [auto|].
  simpl in F. apply andb_prop in F. destruct F as [Fe Fr].
  apply Bool.negb_true_iff, Bool.orb_false_iff in Fe. destruct Fe as [Fm Fh].
  apply IH; [exact Fr| |].
  - apply dismissing_step; assumption.
  - apply hidden_when_empty_step; assumption.
Qed.

(** ** Callbacks of elements that are gone *)

Lemma detach_absent el l :
  ~ In el (map el_id l) -> detach el l = l.
Proof.
  induction l as [|m r IH]; intros H; [reflexivity|].
  simpl in *. destruct (el_id m =? el) eqn:E.
  - apply Nat.eqb_eq in E. exfalso. apply H. now left.
  - simpl. rewrite IH; [reflexivity|]. intros K. apply H. now right.
Qed.

Lemma set_children_same p :
  set_children (children p) p = p.
Proof. destruct p. reflexivity. Qed.

(** X10. [removeMsgEl] running for an element that is no longer in the
    container (the ['hide'] handler emptied it while the element's timer
    was pending) removes nothing: with a child in the container it
    changes nothing at all, and with the container empty all it does is
    fade the panel out. *)
Theorem removeMsgEl_of_absent_element :
  forall el p,
    ~ In el (child_ids p) ->
    children (removeMsgEl el p) = children p /\
    (children p <> [] -> removeMsgEl el p = p) /\
    (children p = [] -> removeMsgEl el p = fadeOut 200 p).
Proof.
  intros el p H. unfold removeMsgEl. simpl.
  rewrite (detach_absent el (children p) H).
  destruct (children p) as [|m r] eqn:E; simpl.
  - split; [reflexivity|]. split; [intros C; contradiction|].
    intros _. rewrite <- E, set_children_same. reflexivity.
  - split; [reflexivity|]. split; [|discriminate].
    intros _. rewrite <- E. apply set_children_same.
Qed.

Lemma removeMsgEl_of_absent_element_witness :
  let p := run [Message "A"; HideEvent; Message "B"; Elapse 4000] loaded in
  ~ In 0 (child_ids p) /\
  In (4400, FadeDone 0) (timers p) /\
  removeMsgEl 0 p = p.
Proof.
  assert (H : ~ In 0 (child_ids
                        (run [Message "A"; HideEvent; Message "B"; Elapse 4000]
                           loaded))).
  { intros [K|[]]. discriminate K. }
  split; [exact H|]. split; [simpl; auto|].
  apply (removeMsgEl_of_absent_element 0
           (run [Message "A"; HideEvent; Message "B"; Elapse 4000] loaded) H).
  discriminate.
Defined.

Lemma shown_iff_nonempty_without_close_witness :
  let evs := [Message "A"; Elapse 4000; Message "B"; MouseEnter;
              Elapse 400; SourceError; Elapse 4400] in
  shown_iff_nonempty loaded /\
  shown_iff_nonempty (run evs loaded) /\
  child_ids (run evs loaded) = [1].
Proof.
  assert (H : shown_iff_nonempty loaded).
  { split; [discriminate|]. intros K. exfalso. apply K. reflexivity. }
  split; [exact H|]. split; [|reflexivity].
  exact (shown_iff_nonempty_without_close
           [Message "A"; Elapse 4000; Message "B"; MouseEnter;
            Elapse 400; SourceError; Elapse 4400] loaded eq_refl H).
Defined.

(** ** The fade of a message *)














(** ** Messages nobody hovers over go away, in the end *)

Lemma dismissing_later L L' p :
  L <= L' -> dismissing L p -> dismissing L' p.
Proof.
  intros Le (O & A & D). split; [exact O|]. split; [exact A|].
  intros el Hel. destruct (D el Hel) as (d & c & K & T & B).
  exists d, c. repeat split; auto. lia.
Qed.

(** X6. As long as the pointer does not enter the panel (and no ['hide']
    event comes), every message goes away by itself in the end: start
    with the container empty, the panel hidden and nothing overdue; after
    any sequence of messages, clicks on the close button, stream errors
    and time passing there is a time, of 4400ms at least, such that once
    it has passed without an outside event the container is empty and
    the panel hidden again. *)
Theorem unhovered_messages_all_go :
  forall evs p,
    on_time p ->
    children p = [] ->
    panel p = Hidden ->
    forallb (fun e => negb (is_mouseenter e || is_hide e)) evs = true ->
    exists T,
      4400 <= T /\
      forall ms,
        T <= ms ->
        children (run (evs ++ [Elapse ms]) p) = [] /\
        panel (run (evs ++ [Elapse ms]) p) = Hidden.
Proof.
  intros evs p O E P F.
  assert (D0 : dismissing (now p + 4400) p).
  { split; [exact O|]. split; [intros C; contradiction|].
    intros el Hel. unfold child_ids in Hel. rewrite E in Hel. destruct Hel. }
  assert (H0 : hidden_when_empty p) by (intros _; exact P).
  destruct (dismissing_run evs p F D0 H0) as [D H].
  exists 4400. split; [lia|]. intros ms Le.
  unfold run. rewrite fold_left_app. fold (run evs p). simpl.
  assert (C : children (elapse ms (run evs p)) = []).
  { apply dismissing_elapse_empty.
    apply (dismissing_later (now (run evs p) + 4400)); [lia|exact D]. }
  split; [exact C|].
  apply (hidden_when_empty_elapse ms (run evs p) H). exact C.
Qed.

Lemma unhovered_messages_all_go_witness :
  let evs := [Message "A"; Elapse 3000; Message "B"; CloseClick;
              Elapse 2000; Message "C"; SourceError; Message "D"] in
  on_time loaded /\
  exists T,
    4400 <= T /\
    forall ms,
      T <= ms ->
      children (run (evs ++ [Elapse ms]) loaded) = [] /\
      panel (run (evs ++ [Elapse ms]) loaded) = Hidden.
Proof.
  assert (O : on_time loaded) by (intros d c []).
  split; [exact O|].
  exact (unhovered_messages_all_go
           [Message "A"; Elapse 3000; Message "B"; CloseClick;
            Elapse 2000; Message "C"; SourceError; Message "D"]
           loaded O eq_refl eq_refl eq_refl).
Defined.
